(** * Tracing client (chapter/9/tracing/client/main.go)

    A shallow embedding of the instrumented HTTP client: the conversion of
    trace identifiers for log correlation ([convertTraceID]), and the request
    loop with its span life cycle, its fatal paths and the deferred shutdown
    of the exporter ([main], [continuouslySendRequests], [makeRequest]).

    Go strings are byte strings: they are modelled by [string] (a list of
    8-bit [ascii] characters), [len] is [String.length].  A [uint64] is a [Z]
    whose wrap-around is written out with [wrap64]. *)

From Stdlib Require Import ZArith List Lia Bool Ascii String.
Import ListNotations.

Open Scope string_scope.
Open Scope Z_scope.

(** ** The part of package strconv the client uses *)

Module Strconv.

Definition maxUint64 : Z := 2 ^ 64 - 1.

(** Arithmetic on uint64 wraps around. *)
Definition wrap64 (x : Z) : Z := x mod 2 ^ 64.

Definition byte_of (c : ascii) : Z := Z.of_N (N_of_ascii c).

(** [lower(c)] is [c | ('x' - 'X')]. *)
Definition lower (c : Z) : Z := Z.lor c (120 - 88).

Inductive NumError : Type :=
| ErrSyntax
| ErrRange
| ErrBase
| ErrBitSize.

(** The [switch] of the digit loop: the value of byte [c] as a digit, or
    [None] in the default case. *)
Definition digitVal (c : Z) : option Z :=
  if (48 <=? c) && (c <=? 57) then Some (c - 48)
  else if (97 <=? lower c) && (lower c <=? 122) then Some (lower c - 97 + 10)
  else None.

(** The loop [for _, c := range []byte(s)] of ParseUint, with [n] the
    accumulator. *)
Fixpoint parseDigits (base cutoff maxVal : Z) (s : string) (n : Z)
  : Z * option NumError :=
  match s with
  | EmptyString => (n, None)
  | String c rest =>
      match digitVal (byte_of c) with
      | None => (0, Some ErrSyntax)
      | Some d =>
          if d >=? base then (0, Some ErrSyntax)
          else if n >=? cutoff then (maxVal, Some ErrRange)
          else
            let n' := wrap64 (n * base) in
            let n1 := wrap64 (n' + d) in
            if (n1 <? n') || (n1 >? maxVal) then (maxVal, Some ErrRange)
            else parseDigits base cutoff maxVal rest n1
      end
  end.

(** [strconv.ParseUint(s, base, bitSize)] for an explicit base, which is
    how the client calls it.  The prefix detection and the underscores of
    base 0 are not part of this model: base 0 is treated like the other
    bases outside 2..36. *)
Definition ParseUint (s : string) (base bitSize : Z) : Z * option NumError :=
  if String.eqb s EmptyString then (0, Some ErrSyntax)
  else if negb ((2 <=? base) && (base <=? 36)) then (0, Some ErrBase)
  else
    let bitSize := if bitSize =? 0 then 64 else bitSize in
    if (bitSize <? 0) || (bitSize >? 64) then (0, Some ErrBitSize)
    else
      let cutoff := maxUint64 / base + 1 in
      let maxVal := wrap64 (wrap64 (Z.shiftl 1 bitSize) - 1) in
      parseDigits base cutoff maxVal s 0.

Definition digits : string := "0123456789abcdefghijklmnopqrstuvwxyz".

Definition digit (d : Z) : ascii :=
  match String.get (Z.to_nat d) digits with
  | Some c => c
  | None => "0"%char
  end.

(** The digit loop of [formatBits]: the digits of [u] are written in front
    of [a], least significant first.  The buffer of the original has room
    for 64 digits and one more; [fuel] bounds the iterations likewise. *)
Fixpoint formatBits (fuel : nat) (u b : Z) (a : string) : string :=
  match fuel with
  | O => String (digit u) a
  | S fuel' =>
      if u >=? b then
        let q := u / b in
        formatBits fuel' q b (String (digit (u - q * b)) a)
      else String (digit u) a
  end.

(** [strconv.FormatUint(i, base)]. *)
Definition FormatUint (i : Z) (base : Z) : string :=
  formatBits 64 i base EmptyString.

End Strconv.

(** ** The process: outcomes, the outside world and the effects *)

Module Runtime.

(** A Go [error] value, by its message. *)
Definition error : Type := string.

(** What a call does: it returns, it panics (and the stack unwinds, running
    deferred calls), or the process exits at once through [os.Exit].
    [Running] is the observation of a [for {}] loop that is still going
    when the bound on the observed iterations is reached. *)
Inductive result (A : Type) : Type :=
| Returns (a : A)
| Panics (v : error)
| Exits (code : Z)
| Running.

Arguments Returns {A} a.
Arguments Panics {A} v.
Arguments Exits {A} code.
Arguments Running {A}.

(** What the process does to its surroundings, in the order it happens.
    [EvSpanStart] and [EvSpanEnd] are the calls of [tracer.Start] and
    [span.End] that main.go makes, with the number of the span.  The span
    that the instrumented transport starts for a round trip, as a child of
    the span of the request's context, and ends itself is told by that
    parent: [EvTransportSpanStart], [EvTransportSpanEnd]. *)
Inductive Event : Type :=
| EvNewExporter (endpoint : string)
| EvNewResource (serviceName : string)
| EvSetTextMapPropagator
| EvSetTracerProvider
| EvSpanStart (span : nat) (name : string)
| EvAddEvent (span : nat) (name : string) (attrs : list (string * string))
| EvSpanEnd (span : nat)
| EvDo (span : nat) (method url : string)
| EvBodyClose
| EvSleep (ns : Z)
| EvShutdown (timeout : Z)
| EvHandle (err : error)
| EvFatal (line : string)
| EvTransportSpanStart (parent : option nat) (name : string)
| EvTransportSpanEnd (parent : option nat).

(** The collaborators the client does not control: the environment
    variables, whether the exporter and the resource can be built, which
    addresses [http.NewRequestWithContext] rejects, the error (if any) of the
    n-th round trip of [client.Do], and the error of the exporter's
    shutdown. *)
Record Env : Type := {
  environ : string -> option string;
  exporter_err : option error;
  resource_err : option error;
  url_err : string -> option error;
  transport_err : nat -> option error;
  shutdown_err : option error
}.

(** The state the process changes: the events so far (oldest first), the
    number of spans main.go started through [tracer.Start] (the number of
    the next such span) and the number of round trips made. *)
Record World : Type := {
  events : list Event;
  spans : nat;
  requests : nat
}.

Definition initial : World := {| events := []; spans := 0; requests := 0 |}.

Definition M (A : Type) : Type := Env -> World -> result A * World.

Definition ret {A} (a : A) : M A := fun _ w => (Returns a, w).

Definition bind {A B} (m : M A) (k : A -> M B) : M B :=
  fun e w =>
    match m e w with
    | (Returns a, w') => k a e w'
    | (Panics v, w') => (Panics v, w')
    | (Exits c, w') => (Exits c, w')
    | (Running, w') => (Running, w')
    end.

Definition panic {A} (v : error) : M A := fun _ w => (Panics v, w).

Definition os_Exit {A} (code : Z) : M A := fun _ w => (Exits code, w).

Definition emit (ev : Event) : M unit :=
  fun _ w =>
    (Returns tt,
     {| events := events w ++ [ev]; spans := spans w; requests := requests w |}).

Definition ask : M Env := fun e w => (Returns e, w).

(** [defer d(); body]: the deferred call runs when the body returns and when
    it panics, and not when the process exits under it.  A deferred call that
    itself panics or exits replaces the outcome. *)
Definition defer {A} (d : M unit) (body : M A) : M A :=
  fun e w =>
    match body e w with
    | (Returns a, w') =>
        match d e w' with
        | (Returns _, w'') => (Returns a, w'')
        | (Panics v, w'') => (Panics v, w'')
        | (Exits c, w'') => (Exits c, w'')
        | (Running, w'') => (Running, w'')
        end
    | (Panics v, w') =>
        match d e w' with
        | (Returns _, w'') => (Panics v, w'')
        | (Panics v', w'') => (Panics v', w'')
        | (Exits c, w'') => (Exits c, w'')
        | (Running, w'') => (Running, w'')
        end
    | (Exits c, w') => (Exits c, w')
    | (Running, w') => (Running, w')
    end.

(** [for { body }], observed for at most [fuel] iterations. *)
Fixpoint forever (fuel : nat) (body : M unit) : M unit :=
  match fuel with
  | O => fun _ w => (Running, w)
  | S fuel' => bind body (fun _ => forever fuel' body)
  end.

(** The exit status of the process when its main function ends this way:
    0 on return, 2 after an unrecovered panic, the argument of [os.Exit];
    none while it runs. *)
Definition exit_status {A} (r : result A) : option Z :=
  match r with
  | Returns _ => Some 0
  | Panics _ => Some 2
  | Exits c => Some c
  | Running => None
  end.

End Runtime.

Import Runtime.

Notation "x <- m ;; k" := (bind m (fun x => k))
  (at level 61, m at next level, right associativity).
Notation "m ;; k" := (bind m (fun _ => k))
  (at level 61, right associativity).
Notation "' pat <- m ;; k" :=
  (bind m (fun x => match x with pat => k end))
  (at level 61, pat pattern, m at next level, right associativity).

(** ** The client *)

Module Client.

Import Strconv.

(** *** The library calls the client makes *)

(** A [context.Context], as far as the client uses one: the span it carries
    and its timeout. *)
Record Context : Type := {
  ctx_span : option nat;
  ctx_timeout : option Z
}.

Definition context_Background : Context :=
  {| ctx_span := None; ctx_timeout := None |}.

(** [context.WithTimeout(ctx, d)] returns the derived context and its
    [cancel] function, which releases a timer and nothing the model sees. *)
Definition context_WithTimeout (ctx : Context) (d : Z) : Context * M unit :=
  ({| ctx_span := ctx_span ctx; ctx_timeout := Some d |}, ret tt).

(** [time.Second], in nanoseconds. *)
Definition Second : Z := 1000000000.

Definition os_LookupEnv (key : string) : M (string * bool) :=
  e <- ask ;;
  ret (match environ e key with
       | Some v => (v, true)
       | None => (EmptyString, false)
       end).

(** [log.Fatalf] prints the line and calls [os.Exit(1)]. *)
Definition log_Fatalf (line : string) : M unit :=
  emit (EvFatal line) ;; os_Exit 1.

Definition otlptrace_New (ctx : Context) (endpoint : string) : M (option error) :=
  emit (EvNewExporter endpoint) ;;
  e <- ask ;;
  ret (exporter_err e).

Definition resource_New (ctx : Context) (serviceName : string) : M (option error) :=
  emit (EvNewResource serviceName) ;;
  e <- ask ;;
  ret (resource_err e).

Definition traceExp_Shutdown (doneCtx : Context) : M (option error) :=
  emit (EvShutdown (match ctx_timeout doneCtx with Some d => d | None => 0 end)) ;;
  e <- ask ;;
  ret (shutdown_err e).

Definition otel_Handle (err : error) : M unit := emit (EvHandle err).

Definition otel_Tracer (name : string) : M string := ret name.

(** [tracer.Start(ctx, name)]: a new span, and the context that carries it. *)
Definition tracer_Start (tracer : string) (ctx : Context) (name : string)
  : M (Context * nat) :=
  fun _ w =>
    let span := spans w in
    (Returns ({| ctx_span := Some span; ctx_timeout := ctx_timeout ctx |}, span),
     {| events := events w ++ [EvSpanStart span name];
        spans := S span;
        requests := requests w |}).

Definition span_AddEvent (span : nat) (name : string)
  (opts : list (list (string * string))) : M unit :=
  emit (EvAddEvent span name (List.concat opts)).

Definition span_End (span : nat) : M unit := emit (EvSpanEnd span).

Definition time_Sleep (d : Z) : M unit := emit (EvSleep d).

Record Request : Type := {
  req_ctx : Context;
  req_method : string;
  req_url : string
}.

Definition http_NewRequestWithContext (ctx : Context) (method url : string)
  : M (Request * option error) :=
  e <- ask ;;
  ret ({| req_ctx := ctx; req_method := method; req_url := url |}, url_err e url).

(** A response, as far as the client uses one: its body, which the
    instrumented transport wrapped so that closing it ends the span of the
    round trip (the child of [res_parent]). *)
Record Response : Type := {
  res_parent : option nat
}.

(** [client.Do(req)] through [otelhttp.NewTransport(http.DefaultTransport)]:
    one round trip.  The transport starts a span of its own, named after the
    method, under the span of the request's context, and makes the round
    trip; on an error it ends that span and there is no response; otherwise
    the span stays open until the body of the response is closed. *)
Definition client_Do (req : Request) : M (option Response * option error) :=
  fun e w =>
    let parent := ctx_span (req_ctx req) in
    let err := transport_err e (requests w) in
    (Returns (match err with
              | Some _ => None
              | None => Some {| res_parent := parent |}
              end, err),
     {| events := events w ++
                  [EvTransportSpanStart parent ("HTTP " ++ req_method req);
                   EvDo (match parent with Some s => s | None => 0%nat end)
                        (req_method req) (req_url req)] ++
                  match err with
                  | Some _ => [EvTransportSpanEnd parent]
                  | None => []
                  end;
        spans := spans w;
        requests := S (requests w) |}).

(** [res.Body.Close()]: the wrapped body ends the span of the round trip and
    closes the body; on a nil response it is a nil dereference. *)
Definition Body_Close (res : option Response) : M unit :=
  match res with
  | Some r => emit (EvTransportSpanEnd (res_parent r)) ;; emit EvBodyClose
  | None => panic "runtime error: invalid memory address or nil pointer dereference"
  end.

(** [len(s)]. *)
Definition len (s : string) : Z := Z.of_nat (String.length s).

Fixpoint drop (n : nat) (s : string) : string :=
  match n, s with
  | O, _ => s
  | S n', String _ rest => drop n' rest
  | S _, EmptyString => EmptyString
  end.

(** [s[lo:]]: a run-time panic when [lo] is out of range. *)
Definition slice_from (s : string) (lo : Z) : M string :=
  if (0 <=? lo) && (lo <=? len s) then ret (drop (Z.to_nat lo) s)
  else panic "runtime error: slice bounds out of range".

(** *** main.go *)

Definition handleErr (err : option error) (message : string) : M unit :=
  match err with
  | Some e => log_Fatalf (message ++ ": " ++ e)
  | None => ret tt
  end.

Definition initTracer (ctx : Context) (otelAgentAddr : string)
  : M (Context -> M unit) :=
  err <- otlptrace_New ctx otelAgentAddr ;;
  handleErr err "Failed to create the collector trace exporter" ;;
  err <- resource_New ctx "demo-client" ;;
  handleErr err "failed to create resource" ;;
  emit EvSetTextMapPropagator ;;
  emit EvSetTracerProvider ;;
  ret (fun doneCtx =>
         err <- traceExp_Shutdown doneCtx ;;
         match err with
         | Some e => otel_Handle e
         | None => ret tt
         end).

Definition initTraceProvider : M (M unit) :=
  let ctx := context_Background in
  ' (otelAgentAddr, ok) <- os_LookupEnv "OTEL_EXPORTER_OTLP_ENDPOINT" ;;
  let otelAgentAddr := if ok : bool then otelAgentAddr else "0.0.0.0:4317" in
  closeTraces <- initTracer ctx otelAgentAddr ;;
  ret (let '(doneCtx, cancel) := context_WithTimeout ctx Second in
       defer cancel (closeTraces doneCtx)).

Definition makeRequest (ctx : Context) : M unit :=
  ' (demoServerAddr, ok) <- os_LookupEnv "DEMO_SERVER_ENDPOINT" ;;
  let demoServerAddr :=
    if ok : bool then demoServerAddr else "http://0.0.0.0:7080/hello" in
  ' (req, err) <- http_NewRequestWithContext ctx "GET" demoServerAddr ;;
  match err with
  | Some _ => handleErr err "failed to http request"
  | None => ret tt
  end ;;
  ' (res, err) <- client_Do req ;;
  match err with
  | Some e => panic e
  | None => Body_Close res
  end.

Definition SuccessfullyFinishedRequestEvent (span : nat)
  (opts : list (list (string * string))) : M unit :=
  let opts := (opts ++ [[("someKey", "someValue")]])%list in
  span_AddEvent span "successfully finished request operation" opts.

(** The body of the loop of [continuouslySendRequests]. *)
Definition sendRequest (tracer : string) : M unit :=
  ' (ctx, span) <- tracer_Start tracer context_Background "ExecuteRequest" ;;
  makeRequest ctx ;;
  SuccessfullyFinishedRequestEvent span [] ;;
  span_End span ;;
  time_Sleep (1 * Second).

Definition continuouslySendRequests (fuel : nat) : M unit :=
  tracer <- otel_Tracer "demo-client-tracer" ;;
  forever fuel (sendRequest tracer).

Definition main (fuel : nat) : M unit :=
  shutdown <- initTraceProvider ;;
  defer shutdown (continuouslySendRequests fuel).

Definition convertTraceID (id : string) : M string :=
  if len id <? 16 then ret EmptyString
  else
    id <- (if len id >? 16 then slice_from id 16 else ret id) ;;
    let '(intValue, err) := ParseUint id 16 64 in
    match err with
    | Some _ => ret EmptyString
    | None => ret (FormatUint intValue 10)
    end.

(** *** Identifiers and the logger

    A trace identifier is an array of 16 bytes and a span identifier an
    array of 8; their [String()] is [hex.EncodeToString] of the bytes. *)

Definition hextable : string := "0123456789abcdef".

Definition hexchar (i : Z) : ascii :=
  match String.get (Z.to_nat i) hextable with
  | Some c => c
  | None => "0"%char
  end.

(** [hex.EncodeToString(src)]: for each byte [v], [hextable[v>>4]] then
    [hextable[v&0x0f]]. *)
Fixpoint hex_EncodeToString (src : list Byte.byte) : string :=
  match src with
  | [] => EmptyString
  | b :: rest =>
      let v := Z.of_N (Byte.to_N b) in
      String (hexchar (Z.shiftr v 4))
        (String (hexchar (Z.land v 15)) (hex_EncodeToString rest))
  end.

(** What [span.SpanContext()] gives of a span. *)
Record SpanContext : Type := {
  TraceID : list Byte.byte;
  SpanID : list Byte.byte
}.

(** A zap logger, by the fields of its context, oldest first. *)
Definition Field : Type := (string * string)%type.

Definition Logger : Type := list Field.

Definition zap_String (key val : string) : Field := (key, val).

(** [log.With(fields...)]: a child logger with the fields added. *)
Definition Logger_With (log : Logger) (fields : list Field) : Logger :=
  (log ++ fields)%list.

Definition WithCorrelation (span : SpanContext) (log : Logger) : M Logger :=
  span_id <- convertTraceID (hex_EncodeToString (SpanID span)) ;;
  trace_id <- convertTraceID (hex_EncodeToString (TraceID span)) ;;
  ret (Logger_With log
         [zap_String "span_id" span_id; zap_String "trace_id" trace_id]).

End Client.

(** ** The vocabulary of the properties *)

Module Spec.

Import Strconv Client.

(** The place of a character in a string of distinct characters. *)
Fixpoint place (c : ascii) (s : string) : option Z :=
  match s with
  | EmptyString => None
  | String c' rest =>
      if Ascii.eqb c c' then Some 0
      else match place c rest with
           | Some i => Some (i + 1)
           | None => None
           end
  end.

(** The value of a hexadecimal digit, in either case. *)
Definition hex_digit_value (c : ascii) : option Z :=
  match place c "0123456789abcdef" with
  | Some d => Some d
  | None =>
      match place c "ABCDEF" with
      | Some d => Some (10 + d)
      | None => None
      end
  end.

Definition is_hex_digit (c : ascii) : bool :=
  match hex_digit_value c with Some _ => true | None => false end.

Fixpoint all_hex (s : string) : bool :=
  match s with
  | EmptyString => true
  | String c rest => is_hex_digit c && all_hex rest
  end.

(** The number a string of hexadecimal digits denotes, read after the
    digits already worth [n]; a character that is no digit counts as 0. *)
Fixpoint hex_value_from (n : Z) (s : string) : Z :=
  match s with
  | EmptyString => n
  | String c rest =>
      hex_value_from (n * 16 + match hex_digit_value c with
                                | Some d => d
                                | None => 0
                                end) rest
  end.

Definition hex_value (s : string) : Z := hex_value_from 0 s.

(** The last [n] characters of [s] (all of [s] when it is shorter). *)
Definition last_chars (n : nat) (s : string) : string :=
  drop (String.length s - n) s.

Definition dec_digit_value (c : ascii) : option Z := place c "0123456789".

Fixpoint dec_value_from (n : Z) (s : string) : option Z :=
  match s with
  | EmptyString => Some n
  | String c rest =>
      match dec_digit_value c with
      | Some d => dec_value_from (n * 10 + d) rest
      | None => None
      end
  end.

(** [s] is the decimal string of [n]: decimal digits only, at least one, no
    leading zero except for "0" itself, and worth [n]. *)
Definition decimal_string_of (n : Z) (s : string) : Prop :=
  dec_value_from 0 s = Some n /\
  match s with
  | EmptyString => False
  | String "0" rest => rest = EmptyString
  | String _ _ => True
  end.


(** The spans main.go started, the spans it ended, in order. *)
Fixpoint started (evs : list Event) : list (nat * string) :=
  match evs with
  | [] => []
  | EvSpanStart span name :: rest => (span, name) :: started rest
  | _ :: rest => started rest
  end.

Fixpoint ended (evs : list Event) : list nat :=
  match evs with
  | [] => []
  | EvSpanEnd span :: rest => span :: ended rest
  | _ :: rest => ended rest
  end.


Fixpoint round_trips (evs : list Event) : nat :=
  match evs with
  | [] => 0
  | EvDo _ _ _ :: rest => S (round_trips rest)
  | _ :: rest => round_trips rest
  end.

Fixpoint shutdowns (evs : list Event) : nat :=
  match evs with
  | [] => 0
  | EvShutdown _ :: rest => S (shutdowns rest)
  | _ :: rest => shutdowns rest
  end.

(** The address [makeRequest] sends to. *)
Definition target (e : Env) : string :=
  match environ e "DEMO_SERVER_ENDPOINT" with
  | Some a => a
  | None => "http://0.0.0.0:7080/hello"
  end.

(** The events of one iteration, by the way it ends. *)
Definition iteration_events (e : Env) (span : nat) : list Event :=
  [EvSpanStart span "ExecuteRequest";
   EvTransportSpanStart (Some span) "HTTP GET";
   EvDo span "GET" (target e);
   EvTransportSpanEnd (Some span);
   EvBodyClose;
   EvAddEvent span "successfully finished request operation"
     [("someKey", "someValue")];
   EvSpanEnd span;
   EvSleep Second].

Definition refused_events (e : Env) (span : nat) : list Event :=
  [EvSpanStart span "ExecuteRequest";
   EvTransportSpanStart (Some span) "HTTP GET";
   EvDo span "GET" (target e);
   EvTransportSpanEnd (Some span)].

Definition rejected_events (span : nat) (err : error) : list Event :=
  [EvSpanStart span "ExecuteRequest";
   EvFatal ("failed to http request: " ++ err)].

(** The address of the collector. *)
Definition collector (e : Env) : string :=
  match environ e "OTEL_EXPORTER_OTLP_ENDPOINT" with
  | Some a => a
  | None => "0.0.0.0:4317"
  end.

(** The events of a successful initialization and those of the shutdown. *)
Definition init_events (e : Env) : list Event :=
  [EvNewExporter (collector e);
   EvNewResource "demo-client";
   EvSetTextMapPropagator;
   EvSetTracerProvider].

Definition shutdown_events (e : Env) : list Event :=
  EvShutdown Second ::
  match shutdown_err e with
  | Some err => [EvHandle err]
  | None => []
  end.

(** The world after some more events. *)
Definition record (evs : list Event) (w : World) : World :=
  {| events := events w ++ evs; spans := spans w; requests := requests w |}.




(** The initialization succeeds: exporter and resource are built. *)
Definition init_succeeds (e : Env) : bool :=
  match exporter_err e, resource_err e with
  | None, None => true
  | _, _ => false
  end.

(** Surroundings in which nothing fails and no variable is set. *)
Definition quiet : Env :=
  {| environ := fun _ => None;
     exporter_err := None;
     resource_err := None;
     url_err := fun _ => None;
     transport_err := fun _ => None;
     shutdown_err := None |}.

(** The round trip number [k] (from 0) is refused, the others succeed. *)
Definition refused_at (k : nat) : Env :=
  {| environ := fun _ => None;
     exporter_err := None;
     resource_err := None;
     url_err := fun _ => None;
     transport_err := fun n => if Nat.eqb n k then Some "connection refused" else None;
     shutdown_err := None |}.

(** DEMO_SERVER_ENDPOINT holds an address that is no URL. *)
Definition bad_endpoint : Env :=
  {| environ := fun key =>
       if String.eqb key "DEMO_SERVER_ENDPOINT" then Some ":" else None;
     exporter_err := None;
     resource_err := None;
     url_err := fun url =>
       if String.eqb url ":" then Some "missing protocol scheme" else None;
     transport_err := fun _ => None;
     shutdown_err := None |}.

(** The number a sequence of bytes denotes, most significant byte first,
    read after the bytes already worth [n]. *)
Fixpoint be_value_from (n : Z) (bs : list Byte.byte) : Z :=
  match bs with
  | [] => n
  | b :: rest => be_value_from (n * 256 + Z.of_N (Byte.to_N b)) rest
  end.

Definition be_value (bs : list Byte.byte) : Z := be_value_from 0 bs.

(** The setup fails: the events up to the fatal line. *)
Definition init_failure_events (e : Env) : list Event :=
  match exporter_err e with
  | Some err =>
      [EvNewExporter (collector e);
       EvFatal ("Failed to create the collector trace exporter: " ++ err)]
  | None =>
      match resource_err e with
      | Some err =>
          [EvNewExporter (collector e);
           EvNewResource "demo-client";
           EvFatal ("failed to create resource: " ++ err)]
      | None => []
      end
  end.

(** A span identifier and a trace identifier, for the examples. *)
Definition sample_span : SpanContext :=
  {| TraceID := [Byte.x4b; Byte.xf9; Byte.x2f; Byte.x35;
                 Byte.x77; Byte.xb3; Byte.x4d; Byte.xa6;
                 Byte.xa3; Byte.xce; Byte.x92; Byte.x9d;
                 Byte.x0e; Byte.x0e; Byte.x47; Byte.x36];
     SpanID := [Byte.x00; Byte.xf0; Byte.x67; Byte.xaa;
                Byte.x0b; Byte.xa9; Byte.x02; Byte.xb7] |}.

(** The exporter is built, the resource is not. *)
Definition no_resource : Env :=
  {| environ := fun _ => None;
     exporter_err := None;
     resource_err := Some "detector failed";
     url_err := fun _ => None;
     transport_err := fun _ => None;
     shutdown_err := None |}.

(** Round trip [k] is refused and the shutdown of the exporter times out. *)
Definition refused_then_timeout (k : nat) : Env :=
  {| environ := fun _ => None;
     exporter_err := None;
     resource_err := None;
     url_err := fun _ => None;
     transport_err := fun n =>
       if Nat.eqb n k then Some "connection refused" else None;
     shutdown_err := Some "context deadline exceeded" |}.

End Spec.

Import Strconv Client Spec.

(** * Properties *)

(** ** The conversion of identifiers *)

Section ConvertTraceID.

Variable e : Env.
Variable w : World.

Lemma slice_from_in_range (s : string) (lo : Z) :
  0 <= lo <= len s ->
  slice_from s lo e w = (Returns (drop (Z.to_nat lo) s), w).
Proof.
  intros [Hlo Hhi]. unfold slice_from.
  apply Z.leb_le in Hlo. apply Z.leb_le in Hhi.
  rewrite Hlo, Hhi. reflexivity.
Qed.

(** What [convertTraceID] computes, branch by branch: the string that goes
    to [ParseUint] is the input itself at length 16 and the input without
    its first 16 bytes above. *)
Lemma convertTraceID_unfold (id : string) :
  convertTraceID id e w =
  (Returns
     (if len id <? 16 then EmptyString
      else
        let id' := if len id >? 16 then drop 16 id else id in
        match ParseUint id' 16 64 with
        | (_, Some _) => EmptyString
        | (intValue, None) => FormatUint intValue 10
        end), w).
Proof.
  unfold convertTraceID.
  destruct (len id <? 16) eqn:Hshort; [reflexivity|].
  apply Z.ltb_ge in Hshort.
  unfold bind.
  destruct (len id >? 16) eqn:Hlong.
  - rewrite slice_from_in_range by lia.
    change (Z.to_nat 16) with 16%nat.
    destruct (ParseUint (drop 16 id) 16 64) as [v [err|]]; reflexivity.
  - unfold ret.
    destruct (ParseUint id 16 64) as [v [err|]]; reflexivity.
Qed.

End ConvertTraceID.

(** C7: an input shorter than 16 bytes gives the empty string. *)
Theorem C7_short_input_gives_empty (id : string) (e : Env) (w : World) :
  len id < 16 ->
  convertTraceID id e w = (Returns EmptyString, w).
Proof.
  intros Hshort. rewrite convertTraceID_unfold.
  apply Z.ltb_lt in Hshort. rewrite Hshort. reflexivity.
Qed.

Lemma C7_short_input_gives_empty_witness :
  len "4bf92f3577b34da" < 16 /\
  convertTraceID "4bf92f3577b34da" quiet initial = (Returns EmptyString, initial).
Proof.
  split; [vm_compute; reflexivity|].
  apply (C7_short_input_gives_empty "4bf92f3577b34da" quiet initial).
  vm_compute; reflexivity.
Defined.

(** C10: on every input, in every state of the process, [convertTraceID]
    returns a string; it neither panics nor ends the process. *)
Theorem C10_convertTraceID_total (id : string) (e : Env) (w : World) :
  exists s : string, convertTraceID id e w = (Returns s, w).
Proof.
  rewrite convertTraceID_unfold. eexists. reflexivity.
Qed.

(** C9: the result of [convertTraceID] depends on its argument alone, not on
    the surroundings or the state of the process it is called in, and the
    call leaves that state as it found it. *)
Theorem C9_convertTraceID_pure (id : string) (e1 e2 : Env) (w1 w2 : World) :
  fst (convertTraceID id e1 w1) = fst (convertTraceID id e2 w2) /\
  snd (convertTraceID id e1 w1) = w1.
Proof.
  rewrite (convertTraceID_unfold e1 w1), (convertTraceID_unfold e2 w2).
  split; reflexivity.
Qed.

(** C2, as the code has it: the low 16 digits of
    0000000000000000000000000000002a are 000000000000002a, and the result
    is 42. *)
Theorem C2_example_2a_gives_42 (e : Env) (w : World) :
  convertTraceID "0000000000000000000000000000002a" e w = (Returns "42", w).
Proof.
  rewrite convertTraceID_unfold. vm_compute. reflexivity.
Qed.

(** C2 as stated fails: the result is not 0. *)
Lemma C2_example_2a_not_0 :
  len "0000000000000000000000000000002a" = 32 /\
  fst (convertTraceID "0000000000000000000000000000002a" quiet initial)
  <> Returns "0".
Proof.
  split; [reflexivity|].
  vm_compute. intros H. discriminate H.
Qed.

(** C3, as the code has it: the low 16 digits of
    00000000000000000000000000000ff1 are 0000000000000ff1, and the result
    is 4081. *)
Theorem C3_example_ff1_gives_4081 (e : Env) (w : World) :
  convertTraceID "00000000000000000000000000000ff1" e w = (Returns "4081", w).
Proof.
  rewrite convertTraceID_unfold. vm_compute. reflexivity.
Qed.

(** C3 as stated fails: the result is not 255. *)
Lemma C3_example_ff1_not_255 :
  len "00000000000000000000000000000ff1" = 32 /\
  fst (convertTraceID "00000000000000000000000000000ff1" quiet initial)
  <> Returns "255".
Proof.
  split; [reflexivity|].
  vm_compute. intros H. discriminate H.
Qed.

(** C1 at a 17-digit input: the last 16 digits of 00000000000000011 denote
    17, and [convertTraceID], which cuts the first 16 bytes off instead of
    keeping the last 16, returns 1. *)
Theorem C1_seventeen_digits_not_low64 :
  let id := "00000000000000011" in
  16 <= len id /\
  all_hex id = true /\
  hex_value (last_chars 16 id) = 17 /\
  decimal_string_of 17 "17" /\
  forall (e : Env) (w : World), convertTraceID id e w = (Returns "1", w).
Proof.
  cbv zeta. split; [vm_compute; congruence|].
  split; [reflexivity|]. split; [reflexivity|].
  split; [split; reflexivity|].
  intros e w. rewrite convertTraceID_unfold. vm_compute. reflexivity.
Qed.

(** C8 at a 17-byte input: the last 16 bytes of 0g000000000000000 hold a g,
    and [convertTraceID], which parses the one byte after the first 16,
    returns 0 and not the empty string. *)
Theorem C8_seventeen_bytes_non_hex_not_empty :
  let id := "0g000000000000000" in
  16 <= len id /\
  all_hex (last_chars 16 id) = false /\
  forall (e : Env) (w : World), convertTraceID id e w = (Returns "0", w).
Proof.
  cbv zeta. split; [vm_compute; congruence|].
  split; [reflexivity|].
  intros e w. rewrite convertTraceID_unfold. vm_compute. reflexivity.
Qed.

(** ** What [ParseUint] and [FormatUint] compute *)

(** The digit switch of [ParseUint] agrees with the hexadecimal digits: a
    digit gets its value, any other byte is rejected or worth 16 or more. *)
Lemma digitVal_hex (c : ascii) :
  match hex_digit_value c, digitVal (byte_of c) with
  | Some d, Some d' => (d =? d') && (0 <=? d) && (d <? 16)
  | None, Some d' => 16 <=? d'
  | None, None => true
  | Some _, None => false
  end = true.
Proof.
  destruct c as [[] [] [] [] [] [] [] []]; vm_compute; reflexivity.
Qed.

Lemma hex_digit_parsed (c : ascii) (d : Z) :
  hex_digit_value c = Some d ->
  digitVal (byte_of c) = Some d /\ 0 <= d < 16.
Proof.
  intros Hd. pose proof (digitVal_hex c) as H. rewrite Hd in H.
  destruct (digitVal (byte_of c)) as [d'|]; [|discriminate].
  apply andb_prop in H. destruct H as [H Hhi].
  apply andb_prop in H. destruct H as [Heq Hlo].
  apply Z.eqb_eq in Heq. apply Z.leb_le in Hlo. apply Z.ltb_lt in Hhi.
  subst d'. split; [reflexivity | lia].
Qed.

Lemma non_hex_digit_rejected (c : ascii) :
  hex_digit_value c = None ->
  match digitVal (byte_of c) with
  | Some d => 16 <= d
  | None => True
  end.
Proof.
  intros Hd. pose proof (digitVal_hex c) as H. rewrite Hd in H.
  destruct (digitVal (byte_of c)) as [d'|]; [|exact I].
  apply Z.leb_le in H. exact H.
Qed.

Lemma hex_value_from_ge (s : string) :
  forall n, 0 <= n -> n <= hex_value_from n s.
Proof.
  induction s as [|c s IH]; intros n Hn; cbn [hex_value_from]; [lia|].
  destruct (hex_digit_value c) as [d|] eqn:Hd.
  - destruct (hex_digit_parsed c d Hd) as [_ Hr].
    specialize (IH (n * 16 + d) ltac:(lia)). lia.
  - specialize (IH (n * 16 + 0) ltac:(lia)). lia.
Qed.

Lemma hex_value_from_lt (s : string) :
  forall n, 0 <= n ->
  hex_value_from n s < (n + 1) * 16 ^ Z.of_nat (String.length s).
Proof.
  induction s as [|c s IH]; intros n Hn; cbn [hex_value_from String.length].
  - change (16 ^ Z.of_nat 0) with 1. lia.
  - rewrite Nat2Z.inj_succ, Z.pow_succ_r by lia.
    assert (Hd : 0 <= match hex_digit_value c with
                       | Some d => d
                       | None => 0
                       end < 16).
    { destruct (hex_digit_value c) as [d|] eqn:Hd; [|lia].
      apply (hex_digit_parsed c d Hd). }
    set (d := match hex_digit_value c with Some d => d | None => 0 end) in *.
    specialize (IH (n * 16 + d) ltac:(lia)).
    assert (0 < 16 ^ Z.of_nat (String.length s)) by (apply Z.pow_pos_nonneg; lia).
    nia.
Qed.

(** The digit loop in base 16 on hexadecimal digits whose value fits 64
    bits: the value, and no error. *)
Lemma parseDigits_hex (s : string) :
  forall n, 0 <= n ->
  all_hex s = true ->
  hex_value_from n s < 2 ^ 64 ->
  parseDigits 16 (2 ^ 60) maxUint64 s n = (hex_value_from n s, None).
Proof.
  induction s as [|c s IH]; intros n Hn Hall Hfit;
    cbn [parseDigits hex_value_from all_hex] in *; [reflexivity|].
  apply andb_prop in Hall. destruct Hall as [Hc Hall].
  unfold is_hex_digit in Hc.
  destruct (hex_digit_value c) as [d|] eqn:Hd; [|discriminate].
  destruct (hex_digit_parsed c d Hd) as [Hdv Hr]. rewrite Hdv.
  pose proof (hex_value_from_ge s (n * 16 + d) ltac:(lia)) as Hge.
  destruct (d >=? 16) eqn:Hbase; [apply Z.geb_le in Hbase; lia|].
  destruct (n >=? 2 ^ 60) eqn:Hcut; [apply Z.geb_le in Hcut; lia|].
  rewrite Z.geb_leb in Hcut. apply Z.leb_gt in Hcut.
  unfold wrap64, maxUint64.
  rewrite (Z.mod_small (n * 16)) by lia.
  rewrite (Z.mod_small (n * 16 + d)) by lia.
  destruct (n * 16 + d <? n * 16) eqn:H1; [apply Z.ltb_lt in H1; lia|].
  destruct (n * 16 + d >? 2 ^ 64 - 1) eqn:H2;
    [rewrite Z.gtb_ltb in H2; apply Z.ltb_lt in H2; lia|].
  cbn [orb]. apply IH; [lia | exact Hall | exact Hfit].
Qed.

(** The digit loop in base 16 on a string with a byte that is no
    hexadecimal digit: an error. *)
Lemma parseDigits_non_hex (cutoff maxVal : Z) (s : string) :
  forall n, all_hex s = false ->
  snd (parseDigits 16 cutoff maxVal s n) <> None.
Proof.
  induction s as [|c s IH]; intros n Hall;
    cbn [parseDigits all_hex] in *; [discriminate|].
  unfold is_hex_digit in Hall.
  destruct (hex_digit_value c) as [d|] eqn:Hd.
  - destruct (hex_digit_parsed c d Hd) as [Hdv Hr]. rewrite Hdv.
    cbn [andb] in Hall.
    destruct (d >=? 16); [discriminate|].
    destruct (n >=? cutoff); [discriminate|].
    match goal with |- context [if ?b then _ else _] => destruct b end;
      [discriminate|].
    apply IH. exact Hall.
  - pose proof (non_hex_digit_rejected c Hd) as Hrej.
    destruct (digitVal (byte_of c)) as [d|]; [|discriminate].
    destruct (d >=? 16) eqn:Hbase; [discriminate|].
    rewrite Z.geb_leb in Hbase. apply Z.leb_gt in Hbase. lia.
Qed.

Lemma ParseUint_16_64 (c : ascii) (s : string) :
  ParseUint (String c s) 16 64 =
  parseDigits 16 (2 ^ 60) maxUint64 (String c s) 0.
Proof.
  reflexivity.
Qed.

(** The digit loop of [formatBits] in base 10. *)

Lemma digit_decimal (u : Z) :
  0 <= u < 10 ->
  dec_digit_value (digit u) = Some u /\ (digit u = "0"%char -> u = 0).
Proof.
  intros Hu.
  assert (Hcases : u = 0 \/ u = 1 \/ u = 2 \/ u = 3 \/ u = 4 \/
                   u = 5 \/ u = 6 \/ u = 7 \/ u = 8 \/ u = 9) by lia.
  repeat (destruct Hcases as [->|Hcases]); try subst u;
    (split; [reflexivity | vm_compute; congruence]).
Qed.

Lemma formatBits_value (fuel : nat) :
  forall (u : Z) (a : string),
    0 <= u < 10 ^ Z.of_nat (S fuel) ->
    dec_value_from 0 (formatBits fuel u 10 a) = dec_value_from u a.
Proof.
  induction fuel as [|fuel IH]; intros u a Hu.
  - change (10 ^ Z.of_nat 1) with 10 in Hu.
    cbn [formatBits dec_value_from].
    destruct (digit_decimal u Hu) as [-> _]. reflexivity.
  - cbn [formatBits].
    destruct (u >=? 10) eqn:Hbig.
    + apply Z.geb_le in Hbig.
      rewrite Nat2Z.inj_succ, Z.pow_succ_r in Hu by lia.
      pose proof (Z.div_mod u 10 ltac:(lia)) as Hdiv.
      pose proof (Z.mod_pos_bound u 10 ltac:(lia)) as Hmod.
      rewrite IH.
      * cbn [dec_value_from].
        assert (Hr : 0 <= u - u / 10 * 10 < 10) by lia.
        destruct (digit_decimal _ Hr) as [-> _].
        f_equal. lia.
      * split; [apply Z.div_pos; lia|].
        apply Z.div_lt_upper_bound; lia.
    + rewrite Z.geb_leb in Hbig. apply Z.leb_gt in Hbig.
      cbn [dec_value_from].
      destruct (digit_decimal u ltac:(lia)) as [-> _]. reflexivity.
Qed.

Lemma formatBits_head (fuel : nat) :
  forall (u : Z) (a : string),
    0 < u < 10 ^ Z.of_nat (S fuel) ->
    exists c rest, formatBits fuel u 10 a = String c rest /\ c <> "0"%char.
Proof.
  induction fuel as [|fuel IH]; intros u a Hu.
  - change (10 ^ Z.of_nat 1) with 10 in Hu.
    cbn [formatBits]. exists (digit u), a. split; [reflexivity|].
    intros H0. apply (digit_decimal u ltac:(lia)) in H0. lia.
  - cbn [formatBits].
    destruct (u >=? 10) eqn:Hbig.
    + apply Z.geb_le in Hbig.
      rewrite Nat2Z.inj_succ, Z.pow_succ_r in Hu by lia.
      apply IH. split.
      * apply Z.div_str_pos. lia.
      * apply Z.div_lt_upper_bound; lia.
    + rewrite Z.geb_leb in Hbig. apply Z.leb_gt in Hbig.
      exists (digit u), a. split; [reflexivity|].
      intros H0. apply (digit_decimal u ltac:(lia)) in H0. lia.
Qed.

(** [FormatUint] in base 10 renders a uint64 as its decimal string. *)
Lemma FormatUint_decimal (n : Z) :
  0 <= n < 2 ^ 64 ->
  decimal_string_of n (FormatUint n 10).
Proof.
  intros Hn. unfold decimal_string_of, FormatUint.
  assert (Hpow : 2 ^ 64 < 10 ^ Z.of_nat 65) by (vm_compute; reflexivity).
  split.
  - rewrite formatBits_value by lia. reflexivity.
  - destruct (Z.eq_dec n 0) as [->|Hpos].
    + vm_compute. reflexivity.
    + destruct (formatBits_head 64 n EmptyString ltac:(lia))
        as (c & rest & -> & Hc).
      destruct c as [[] [] [] [] [] [] [] []]; try exact I.
      now elim Hc.
Qed.

(** Facts on [drop] and on the last characters. *)

Lemma drop_length (n : nat) :
  forall s, String.length (drop n s) = (String.length s - n)%nat.
Proof.
  induction n as [|n IH]; intros [|c s]; cbn [drop String.length];
    try reflexivity.
  apply IH.
Qed.

Lemma drop_drop (a b : nat) :
  forall s, drop a (drop b s) = drop (b + a) s.
Proof.
  induction b as [|b IH]; intros s; [reflexivity|].
  destruct s as [|c s]; cbn [drop Nat.add]; [destruct a; reflexivity|].
  apply IH.
Qed.

Lemma all_hex_drop (n : nat) :
  forall s, all_hex s = true -> all_hex (drop n s) = true.
Proof.
  induction n as [|n IH]; intros [|c s] Hs; cbn [drop]; try exact Hs.
  cbn [all_hex] in Hs. apply andb_prop in Hs. apply IH, Hs.
Qed.

(** Sixteen hexadecimal digits denote a uint64, and [ParseUint] reads it. *)
Lemma ParseUint_sixteen_hex (s : string) :
  String.length s = 16%nat ->
  all_hex s = true ->
  ParseUint s 16 64 = (hex_value s, None) /\ 0 <= hex_value s < 2 ^ 64.
Proof.
  intros Hlen Hall.
  assert (Hv : 0 <= hex_value s < 2 ^ 64).
  { unfold hex_value. split; [apply hex_value_from_ge; lia|].
    pose proof (hex_value_from_lt s 0 ltac:(lia)) as Hlt.
    rewrite Hlen in Hlt. exact Hlt. }
  split; [|exact Hv].
  destruct s as [|c s]; [discriminate|].
  rewrite ParseUint_16_64. apply parseDigits_hex; [lia | exact Hall | apply Hv].
Qed.

(** A byte that is no hexadecimal digit makes [ParseUint] in base 16 fail. *)
Lemma ParseUint_non_hex (s : string) :
  all_hex s = false ->
  snd (ParseUint s 16 64) <> None.
Proof.
  intros Hall. destruct s as [|c s]; [discriminate|].
  rewrite ParseUint_16_64. apply parseDigits_non_hex. exact Hall.
Qed.

(** On 16 or 32 hexadecimal digits (a span identifier, a trace identifier)
    [convertTraceID] returns the decimal string of the number the last 16
    digits denote. *)
Theorem convertTraceID_low64 (id : string) (e : Env) (w : World) :
  len id = 16 \/ len id = 32 ->
  all_hex id = true ->
  exists s : string,
    convertTraceID id e w = (Returns s, w) /\
    decimal_string_of (hex_value (last_chars 16 id)) s.
Proof.
  intros Hlen Hall. rewrite convertTraceID_unfold.
  unfold len in *. unfold last_chars.
  destruct Hlen as [Hlen|Hlen].
  - assert (Hn : String.length id = 16%nat) by lia.
    rewrite Hlen, Hn. cbn [Nat.sub drop].
    destruct (ParseUint_sixteen_hex id Hn Hall) as [Hparse Hv].
    change (16 <? 16) with false. change (16 >? 16) with false.
    cbv iota zeta. rewrite Hparse.
    eexists. split; [reflexivity|]. apply FormatUint_decimal, Hv.
  - assert (Hn : String.length id = 32%nat) by lia.
    rewrite Hlen, Hn. change (32 - 16)%nat with 16%nat.
    assert (Hn' : String.length (drop 16 id) = 16%nat)
      by (rewrite drop_length, Hn; reflexivity).
    destruct (ParseUint_sixteen_hex _ Hn' (all_hex_drop 16 id Hall))
      as [Hparse Hv].
    change (32 <? 16) with false. change (32 >? 16) with true.
    cbv iota zeta. rewrite Hparse.
    eexists. split; [reflexivity|]. apply FormatUint_decimal, Hv.
Qed.

(** On an input of 16 bytes, or of 32 bytes and more, with a byte among the
    last 16 that is no hexadecimal digit, [convertTraceID] returns the empty
    string. *)
Theorem convertTraceID_non_hex (id : string) (e : Env) (w : World) :
  len id = 16 \/ 32 <= len id ->
  all_hex (last_chars 16 id) = false ->
  convertTraceID id e w = (Returns EmptyString, w).
Proof.
  intros Hlen Hall. rewrite convertTraceID_unfold.
  unfold len in *. unfold last_chars in Hall.
  destruct Hlen as [Hlen|Hlen].
  - assert (Hn : String.length id = 16%nat) by lia.
    rewrite Hn in Hall. cbn [Nat.sub drop] in Hall.
    rewrite Hlen.
    change (16 <? 16) with false. change (16 >? 16) with false.
    cbv iota zeta.
    pose proof (ParseUint_non_hex id Hall) as Herr.
    destruct (ParseUint id 16 64) as [v [err|]]; [reflexivity|].
    now elim Herr.
  - destruct (Z.of_nat (String.length id) <? 16) eqn:H1;
      [apply Z.ltb_lt in H1; lia|].
    destruct (Z.of_nat (String.length id) >? 16) eqn:H2;
      [|rewrite Z.gtb_ltb in H2; apply Z.ltb_ge in H2; lia].
    cbv zeta.
    assert (Hrest : all_hex (drop 16 id) = false).
    { destruct (all_hex (drop 16 id)) eqn:Hd; [|reflexivity].
      apply (all_hex_drop (String.length id - 32)) in Hd.
      rewrite drop_drop in Hd.
      replace (16 + (String.length id - 32))%nat
        with (String.length id - 16)%nat in Hd by lia.
      congruence. }
    pose proof (ParseUint_non_hex _ Hrest) as Herr.
    destruct (ParseUint (drop 16 id) 16 64) as [v [err|]]; [reflexivity|].
    now elim Herr.
Qed.

(** The digit loop in base 16 on hexadecimal digits whose value does not
    fit 64 bits: a range error. *)
Lemma parseDigits_overflow (s : string) :
  forall n, 0 <= n < 2 ^ 64 ->
  all_hex s = true ->
  2 ^ 64 <= hex_value_from n s ->
  snd (parseDigits 16 (2 ^ 60) maxUint64 s n) = Some ErrRange.
Proof.
  induction s as [|c s IH]; intros n Hn Hall Hbig;
    cbn [parseDigits hex_value_from all_hex] in *; [lia|].
  apply andb_prop in Hall. destruct Hall as [Hc Hall].
  unfold is_hex_digit in Hc.
  destruct (hex_digit_value c) as [d|] eqn:Hd; [|discriminate].
  destruct (hex_digit_parsed c d Hd) as [Hdv Hr]. rewrite Hdv.
  destruct (d >=? 16) eqn:Hbase; [apply Z.geb_le in Hbase; lia|].
  destruct (n >=? 2 ^ 60) eqn:Hcut; [reflexivity|].
  rewrite Z.geb_leb in Hcut. apply Z.leb_gt in Hcut.
  unfold wrap64, maxUint64.
  rewrite (Z.mod_small (n * 16)) by lia.
  rewrite (Z.mod_small (n * 16 + d)) by lia.
  destruct (n * 16 + d <? n * 16) eqn:H1; [apply Z.ltb_lt in H1; lia|].
  destruct (n * 16 + d >? 2 ^ 64 - 1) eqn:H2;
    [rewrite Z.gtb_ltb in H2; apply Z.ltb_lt in H2; lia|].
  cbn [orb]. apply IH; [lia | exact Hall | exact Hbig].
Qed.

(** What the code does on more than 16 hexadecimal digits: it reads the
    digits after the first 16, all of them.  When they fit 64 bits the
    result is their decimal string, and the empty string when they do
    not. *)
Theorem convertTraceID_after_first_16 (id : string) (e : Env) (w : World) :
  16 < len id ->
  all_hex id = true ->
  exists s : string,
    convertTraceID id e w = (Returns s, w) /\
    if hex_value (drop 16 id) <? 2 ^ 64
    then decimal_string_of (hex_value (drop 16 id)) s
    else s = EmptyString.
Proof.
  intros Hlen Hall. rewrite convertTraceID_unfold.
  destruct (len id <? 16) eqn:H1; [apply Z.ltb_lt in H1; lia|].
  destruct (len id >? 16) eqn:H2;
    [|rewrite Z.gtb_ltb in H2; apply Z.ltb_ge in H2; lia].
  cbv zeta.
  pose proof (all_hex_drop 16 id Hall) as Hrest.
  pose proof (drop_length 16 id) as Hdl. unfold len in Hlen.
  destruct (drop 16 id) as [|c s] eqn:Hdrop; [cbn in Hdl; lia|].
  rewrite ParseUint_16_64. unfold hex_value.
  pose proof (hex_value_from_ge (String c s) 0 ltac:(lia)) as Hge.
  destruct (hex_value_from 0 (String c s) <? 2 ^ 64) eqn:Hfit.
  - apply Z.ltb_lt in Hfit.
    rewrite parseDigits_hex by (try lia; assumption).
    eexists. split; [reflexivity|]. apply FormatUint_decimal. lia.
  - apply Z.ltb_ge in Hfit.
    pose proof (parseDigits_overflow (String c s) 0 ltac:(lia) Hrest Hfit)
      as Herr.
    destruct (parseDigits 16 (2 ^ 60) maxUint64 (String c s) 0)
      as [v err]. cbn [snd] in Herr. subst err.
    eexists. split; reflexivity.
Qed.

(** ** The request loop *)


(** One iteration, in full: the address is rejected and the process exits
    with status 1; the round trip fails and the iteration panics; or the
    iteration completes. *)
Lemma sendRequest_run (tracer : string) (e : Env) (w : World) :
  sendRequest tracer e w =
  match url_err e (target e) with
  | Some err =>
      (Exits 1,
       {| events := events w ++ rejected_events (spans w) err;
          spans := S (spans w);
          requests := requests w |})
  | None =>
      match transport_err e (requests w) with
      | Some err =>
          (Panics err,
           {| events := events w ++ refused_events e (spans w);
              spans := S (spans w);
              requests := S (requests w) |})
      | None =>
          (Returns tt,
           {| events := events w ++ iteration_events e (spans w);
              spans := S (spans w);
              requests := S (requests w) |})
      end
  end.
Proof.
  unfold sendRequest, makeRequest, SuccessfullyFinishedRequestEvent,
    os_LookupEnv, http_NewRequestWithContext, client_Do, tracer_Start,
    span_AddEvent, span_End, time_Sleep, Body_Close, handleErr, log_Fatalf,
    iteration_events, refused_events, rejected_events,
    target, bind, ask, ret, emit, panic, os_Exit.
  cbn [events spans requests].
  destruct (environ e "DEMO_SERVER_ENDPOINT") as [addr|];
    cbn [events spans requests fst snd req_ctx req_method req_url ctx_span].
  - destruct (url_err e addr) as [err|];
      cbn [events spans requests req_ctx req_method req_url ctx_span].
    + rewrite <- !app_assoc. reflexivity.
    + destruct (transport_err e (requests w)) as [err|];
        cbn [events spans requests]; rewrite <- !app_assoc; reflexivity.
  - destruct (url_err e "http://0.0.0.0:7080/hello") as [err|];
      cbn [events spans requests req_ctx req_method req_url ctx_span].
    + rewrite <- !app_assoc. reflexivity.
    + destruct (transport_err e (requests w)) as [err|];
        cbn [events spans requests]; rewrite <- !app_assoc; reflexivity.
Qed.

(** ** The main routine and the deferred shutdown *)

(** After a successful initialization, [main] is the loop followed, when the
    loop returns or panics, by the shutdown of the exporter; an exit of the
    process inside the loop is final. *)
Lemma main_run (fuel : nat) (e : Env) (w : World) :
  init_succeeds e = true ->
  main fuel e w =
  match continuouslySendRequests fuel e (record (init_events e) w) with
  | (Returns a, w') => (Returns a, record (shutdown_events e) w')
  | (Panics v, w') => (Panics v, record (shutdown_events e) w')
  | (Exits c, w') => (Exits c, w')
  | (Running, w') => (Running, w')
  end.
Proof.
  unfold init_succeeds. intros Hinit.
  destruct (exporter_err e) as [err|] eqn:Hexp; [discriminate|].
  destruct (resource_err e) as [err|] eqn:Hres; [discriminate|].
  unfold main, initTraceProvider, initTracer, os_LookupEnv, otlptrace_New,
    resource_New, handleErr, bind, ask, ret, emit.
  unfold record, init_events, collector, shutdown_events.
  destruct (environ e "OTEL_EXPORTER_OTLP_ENDPOINT") as [addr|];
    cbn [events spans requests]; rewrite Hexp;
    cbn [events spans requests]; rewrite Hres;
    cbn [events spans requests];
    rewrite <- !app_assoc; cbn [app];
    unfold defer, context_WithTimeout, traceExp_Shutdown, otel_Handle,
      bind, ask, ret, emit;
    cbn [events spans requests ctx_timeout];
    match goal with
    | |- context [continuouslySendRequests fuel e ?w0] =>
        destruct (continuouslySendRequests fuel e w0) as [[a|v|c|] w']
    end;
    try reflexivity;
    destruct (shutdown_err e) as [err|];
    cbn [events spans requests]; rewrite <- ?app_assoc; reflexivity.
Qed.

Section Loop.

Variable tracer : string.
Variable e : Env.

(** The loop with a round trip that fails after [k] iterations that
    succeeded: the iteration panics after its round trip, and the loop with
    it, whatever the number of iterations one is ready to observe. *)
Lemma forever_refused (err : error) :
  url_err e (target e) = None ->
  forall (k fuel : nat) (w : World),
    (forall i, (i < k)%nat -> transport_err e (requests w + i) = None) ->
    transport_err e (requests w + k) = Some err ->
    (k < fuel)%nat ->
    forever fuel (sendRequest tracer) e w =
    (Panics err,
     {| events := events w ++
                  flat_map (iteration_events e) (seq (spans w) k) ++
                  refused_events e (spans w + k);
        spans := S (spans w + k);
        requests := S (requests w + k) |}).
Proof.
  intros Hurl k. induction k as [|k IH]; intros fuel w Hok Herr Hfuel.
  - destruct fuel as [|fuel]; [lia|].
    cbn [forever]. unfold bind. rewrite sendRequest_run, Hurl.
    rewrite Nat.add_0_r in Herr. rewrite Herr.
    rewrite !Nat.add_0_r. reflexivity.
  - destruct fuel as [|fuel]; [lia|].
    cbn [forever]. unfold bind. rewrite sendRequest_run, Hurl.
    pose proof (Hok 0%nat ltac:(lia)) as H0.
    rewrite Nat.add_0_r in H0. rewrite H0.
    rewrite IH; cbn [events spans requests].
    + rewrite !Nat.add_succ_r. cbn [Nat.add seq flat_map].
      rewrite <- !app_assoc. reflexivity.
    + intros i Hi.
      replace (S (requests w) + i)%nat with (requests w + S i)%nat by lia.
      apply Hok. lia.
    + replace (S (requests w) + k)%nat with (requests w + S k)%nat by lia.
      exact Herr.
    + lia.
Qed.

(** The loop when the address is no URL: the first iteration ends the
    process with status 1, before any round trip. *)
Lemma forever_rejected (err : error) (fuel : nat) (w : World) :
  url_err e (target e) = Some err ->
  forever (S fuel) (sendRequest tracer) e w =
  (Exits 1,
   {| events := events w ++ rejected_events (spans w) err;
      spans := S (spans w);
      requests := requests w |}).
Proof.
  intros Hurl. cbn [forever]. unfold bind.
  rewrite sendRequest_run, Hurl. reflexivity.
Qed.

(** The loop never returns. *)
Lemma forever_never_returns (fuel : nat) (w : World) :
  fst (forever fuel (sendRequest tracer) e w) <> Returns tt.
Proof.
  revert w. induction fuel as [|fuel IH]; intros w.
  - discriminate.
  - cbn [forever]. unfold bind.
    destruct (sendRequest tracer e w) as [[[]|v|c|] w'];
      cbn [fst]; try discriminate.
    apply IH.
Qed.

End Loop.

(** Counting in a trace. *)

Lemma round_trips_app (l l' : list Event) :
  round_trips (l ++ l') = (round_trips l + round_trips l')%nat.
Proof.
  induction l as [|[] l IH]; cbn [app round_trips]; rewrite ?IH; reflexivity.
Qed.

Lemma shutdowns_app (l l' : list Event) :
  shutdowns (l ++ l') = (shutdowns l + shutdowns l')%nat.
Proof.
  induction l as [|[] l IH]; cbn [app shutdowns]; rewrite ?IH; reflexivity.
Qed.

Lemma started_app (l l' : list Event) :
  started (l ++ l') = (started l ++ started l')%list.
Proof.
  induction l as [|[] l IH]; cbn [app started]; rewrite ?IH; reflexivity.
Qed.

Lemma ended_app (l l' : list Event) :
  ended (l ++ l') = (ended l ++ ended l')%list.
Proof.
  induction l as [|[] l IH]; cbn [app ended]; rewrite ?IH; reflexivity.
Qed.

Lemma round_trips_iterations (e : Env) (l : list nat) :
  round_trips (flat_map (iteration_events e) l) = List.length l.
Proof.
  induction l as [|s l IH]; cbn; [reflexivity | now rewrite IH].
Qed.

Lemma shutdowns_iterations (e : Env) (l : list nat) :
  shutdowns (flat_map (iteration_events e) l) = 0%nat.
Proof.
  induction l as [|s l IH]; cbn; [reflexivity | exact IH].
Qed.

Lemma started_iterations (e : Env) (l : list nat) :
  started (flat_map (iteration_events e) l) =
  map (fun span => (span, "ExecuteRequest")) l.
Proof.
  induction l as [|s l IH]; cbn; [reflexivity | now rewrite IH].
Qed.

Lemma ended_iterations (e : Env) (l : list nat) :
  ended (flat_map (iteration_events e) l) = l.
Proof.
  induction l as [|s l IH]; cbn; [reflexivity | now rewrite IH].
Qed.

(** The whole run of the process when round trip [k] is the first to fail:
    initialization, [k] complete iterations, the iteration that panics, and
    the deferred shutdown on the way out. *)
Lemma main_refused (e : Env) (k fuel : nat) (err : error) :
  init_succeeds e = true ->
  url_err e (target e) = None ->
  (forall i, (i < k)%nat -> transport_err e i = None) ->
  transport_err e k = Some err ->
  (k < fuel)%nat ->
  main fuel e initial =
  (Panics err,
   {| events := init_events e ++
                flat_map (iteration_events e) (seq 0 k) ++
                refused_events e k ++
                shutdown_events e;
      spans := S k;
      requests := S k |}).
Proof.
  intros Hinit Hurl Hok Herr Hfuel.
  rewrite main_run by exact Hinit.
  unfold continuouslySendRequests, otel_Tracer.
  unfold bind at 1. unfold ret at 1.
  rewrite (forever_refused _ e err Hurl k); try assumption.
  unfold record, initial. cbn [events spans requests app Nat.add].
  rewrite <- !app_assoc. reflexivity.
Qed.

(** The whole run of the process when the address is no URL: the first
    iteration ends the process, and nothing runs after [log.Fatalf]. *)
Lemma main_rejected (e : Env) (fuel : nat) (err : error) :
  init_succeeds e = true ->
  url_err e (target e) = Some err ->
  main (S fuel) e initial =
  (Exits 1,
   {| events := init_events e ++ rejected_events 0 err;
      spans := 1;
      requests := 0 |}).
Proof.
  intros Hinit Hurl.
  rewrite main_run by exact Hinit.
  unfold continuouslySendRequests, otel_Tracer.
  unfold bind at 1. unfold ret at 1.
  rewrite (forever_rejected _ e err fuel _ Hurl).
  reflexivity.
Qed.

(** On the panic path the deferred shutdown runs, once. *)
Lemma main_refused_shuts_down_once (e : Env) (k fuel : nat) (err : error) :
  init_succeeds e = true ->
  url_err e (target e) = None ->
  (forall i, (i < k)%nat -> transport_err e i = None) ->
  transport_err e k = Some err ->
  (k < fuel)%nat ->
  shutdowns (events (snd (main fuel e initial))) = 1%nat.
Proof.
  intros Hinit Hurl Hok Herr Hfuel.
  rewrite (main_refused e k fuel err) by assumption.
  cbn [snd events]. rewrite !shutdowns_app, shutdowns_iterations.
  unfold shutdown_events. destruct (shutdown_err e); reflexivity.
Qed.

(** C5: when a round trip fails, after any number of iterations that went
    well, the process ends there by a panic, with exit status 2: that round
    trip was the last one (no retry), the span of that iteration is the last
    one started (no further iteration) and it is never ended, however long
    the loop is observed. *)
Theorem C5_transport_failure_ends_process
  (e : Env) (k fuel : nat) (err : error) :
  init_succeeds e = true ->
  url_err e (target e) = None ->
  (forall i, (i < k)%nat -> transport_err e i = None) ->
  transport_err e k = Some err ->
  (k < fuel)%nat ->
  let r := main fuel e initial in
  fst r = Panics err /\
  exit_status (fst r) = Some 2 /\
  round_trips (events (snd r)) = S k /\
  started (events (snd r)) =
    map (fun span => (span, "ExecuteRequest")) (seq 0 (S k)) /\
  ended (events (snd r)) = seq 0 k.
Proof.
  intros Hinit Hurl Hok Herr Hfuel. cbv zeta.
  rewrite (main_refused e k fuel err) by assumption.
  cbn [fst snd events exit_status].
  split; [reflexivity|]. split; [reflexivity|].
  rewrite !round_trips_app, !started_app, !ended_app.
  rewrite round_trips_iterations, started_iterations, ended_iterations.
  rewrite length_seq, seq_S, map_app.
  unfold shutdown_events.
  destruct (shutdown_err e); cbn; rewrite ?app_nil_r;
    (split; [lia | split; reflexivity]).
Qed.

Lemma C5_transport_failure_ends_process_witness :
  let r := main 5 (refused_at 2) initial in
  fst r = Panics "connection refused" /\
  exit_status (fst r) = Some 2 /\
  round_trips (events (snd r)) = 3%nat /\
  started (events (snd r)) =
    map (fun span => (span, "ExecuteRequest")) (seq 0 3) /\
  ended (events (snd r)) = seq 0 2.
Proof.
  apply (C5_transport_failure_ends_process
           (refused_at 2) 2 5 "connection refused").
  - reflexivity.
  - reflexivity.
  - intros [|[|i]] Hi; [reflexivity | reflexivity | lia].
  - reflexivity.
  - lia.
Defined.

(** C6 when DEMO_SERVER_ENDPOINT holds no URL: the initialization succeeds,
    the first request cannot be built, [handleErr] ends the process through
    [log.Fatalf] with status 1, and the deferred shutdown of the exporter
    does not run. *)
Theorem C6_fatal_exit_skips_shutdown (fuel : nat) :
  let r := main (S fuel) bad_endpoint initial in
  init_succeeds bad_endpoint = true /\
  fst r = Exits 1 /\
  shutdowns (events (snd r)) = 0%nat.
Proof.
  cbv zeta.
  rewrite (main_rejected bad_endpoint fuel "missing protocol scheme");
    [| reflexivity | reflexivity].
  repeat split.
Qed.

(** ** More on the conversion of identifiers *)

Lemma convertTraceID_low64_witness :
  exists s : string,
    convertTraceID "4bf92f3577b34da6a3ce929d0e0e4736" quiet initial
    = (Returns s, initial) /\
    decimal_string_of
      (hex_value (last_chars 16 "4bf92f3577b34da6a3ce929d0e0e4736")) s.
Proof.
  apply (convertTraceID_low64 "4bf92f3577b34da6a3ce929d0e0e4736" quiet initial).
  - right. reflexivity.
  - reflexivity.
Defined.

Lemma convertTraceID_non_hex_witness :
  convertTraceID "4bf92f3577b34da6a3ce929d0e0e47zz" quiet initial
  = (Returns EmptyString, initial).
Proof.
  apply (convertTraceID_non_hex "4bf92f3577b34da6a3ce929d0e0e47zz" quiet initial).
  - right. vm_compute. discriminate.
  - reflexivity.
Defined.

Lemma convertTraceID_after_first_16_witness :
  exists s : string,
    convertTraceID "4bf92f3577b34da6a3c" quiet initial = (Returns s, initial) /\
    if hex_value (drop 16 "4bf92f3577b34da6a3c") <? 2 ^ 64
    then decimal_string_of (hex_value (drop 16 "4bf92f3577b34da6a3c")) s
    else s = EmptyString.
Proof.
  apply (convertTraceID_after_first_16 "4bf92f3577b34da6a3c" quiet initial).
  - vm_compute. reflexivity.
  - reflexivity.
Defined.

(** The digit loop keeps its accumulator a uint64. *)
Lemma parseDigits_range (base cutoff : Z) (s : string) :
  forall n, 0 <= n < 2 ^ 64 ->
  snd (parseDigits base cutoff maxUint64 s n) = None ->
  0 <= fst (parseDigits base cutoff maxUint64 s n) < 2 ^ 64.
Proof.
  induction s as [|c s IH]; intros n Hn Hok; cbn [parseDigits] in *.
  - exact Hn.
  - destruct (digitVal (byte_of c)) as [d|]; [|discriminate].
    destruct (d >=? base); [discriminate|].
    destruct (n >=? cutoff); [discriminate|].
    match type of Hok with
    | context [if ?b then _ else _] => destruct b
    end; [discriminate|].
    apply IH; [|exact Hok].
    unfold wrap64. apply Z.mod_pos_bound. lia.
Qed.

(** Whatever the input, the result of [convertTraceID] is the empty string
    or the decimal string of a uint64: decimal digits only and no leading
    zero. *)
Theorem convertTraceID_empty_or_decimal (id : string) (e : Env) (w : World) :
  exists s : string,
    convertTraceID id e w = (Returns s, w) /\
    (s = EmptyString \/
     exists n : Z, 0 <= n < 2 ^ 64 /\ decimal_string_of n s).
Proof.
  rewrite convertTraceID_unfold.
  destruct (len id <? 16); [eexists; split; [reflexivity | left; reflexivity]|].
  cbv zeta.
  set (id' := if len id >? 16 then drop 16 id else id).
  destruct id' as [|c s].
  - eexists. split; [reflexivity | left; reflexivity].
  - rewrite ParseUint_16_64.
    pose proof (parseDigits_range 16 (2 ^ 60) (String c s) 0 ltac:(lia)) as Hr.
    destruct (parseDigits 16 (2 ^ 60) maxUint64 (String c s) 0) as [v [err|]].
    + eexists. split; [reflexivity | left; reflexivity].
    + eexists. split; [reflexivity|]. right. exists v.
      specialize (Hr eq_refl). cbn [fst] in Hr.
      split; [exact Hr | apply FormatUint_decimal, Hr].
Qed.

Lemma drop_app_length (p s : string) :
  drop (String.length p) (p ++ s) = s.
Proof.
  induction p as [|c p IH]; [reflexivity | exact IH].
Qed.

Lemma length_append (p s : string) :
  String.length (p ++ s) = (String.length p + String.length s)%nat.
Proof.
  induction p as [|c p IH]; cbn; [reflexivity | now rewrite IH].
Qed.

(** The first 16 bytes of a longer input have no part in the result: two
    inputs that agree after their first 16 bytes give the same result, be
    those bytes digits or not. *)
Theorem convertTraceID_ignores_first_16
  (p p' s : string) (e : Env) (w : World) :
  String.length p = 16%nat ->
  String.length p' = 16%nat ->
  s <> EmptyString ->
  convertTraceID (p ++ s) e w = convertTraceID (p' ++ s) e w.
Proof.
  intros Hp Hp' Hs. rewrite !convertTraceID_unfold.
  assert (Hl : 0 < Z.of_nat (String.length s))
    by (destruct s; [congruence | cbn [String.length]; lia]).
  unfold len. rewrite !length_append, Hp, Hp'.
  destruct (Z.of_nat (16 + String.length s) <? 16) eqn:H1;
    [apply Z.ltb_lt in H1; lia|].
  destruct (Z.of_nat (16 + String.length s) >? 16) eqn:H2;
    [|rewrite Z.gtb_ltb in H2; apply Z.ltb_ge in H2; lia].
  cbv zeta.
  rewrite <- Hp at 1. rewrite drop_app_length.
  rewrite <- Hp' at 1. rewrite drop_app_length.
  reflexivity.
Qed.

Lemma convertTraceID_ignores_first_16_witness :
  convertTraceID ("4bf92f3577b34da6" ++ "00000000000000ff") quiet initial =
  convertTraceID ("not a hex digit!" ++ "00000000000000ff") quiet initial.
Proof.
  apply (convertTraceID_ignores_first_16
           "4bf92f3577b34da6" "not a hex digit!" "00000000000000ff"
           quiet initial).
  - reflexivity.
  - reflexivity.
  - discriminate.
Defined.

(** ** The correlation fields of a logger *)

(** The two characters [hex.EncodeToString] writes for a byte are
    hexadecimal digits, worth the byte. *)
Lemma encoded_byte (b : Byte.byte) :
  let v := Z.of_N (Byte.to_N b) in
  match hex_digit_value (hexchar (Z.shiftr v 4)),
        hex_digit_value (hexchar (Z.land v 15)) with
  | Some hi, Some lo => hi * 16 + lo =? v
  | _, _ => false
  end = true.
Proof.
  destruct b; vm_compute; reflexivity.
Qed.

Lemma hex_EncodeToString_length (bs : list Byte.byte) :
  String.length (hex_EncodeToString bs) = (2 * List.length bs)%nat.
Proof.
  induction bs as [|b bs IH]; cbn [hex_EncodeToString String.length List.length];
    [reflexivity | rewrite IH; lia].
Qed.

Lemma hex_EncodeToString_all_hex (bs : list Byte.byte) :
  all_hex (hex_EncodeToString bs) = true.
Proof.
  induction bs as [|b bs IH]; cbn [hex_EncodeToString all_hex]; [reflexivity|].
  pose proof (encoded_byte b) as Hb. cbv zeta in Hb. unfold is_hex_digit.
  destruct (hex_digit_value (hexchar (Z.shiftr (Z.of_N (Byte.to_N b)) 4)));
    [|discriminate].
  destruct (hex_digit_value (hexchar (Z.land (Z.of_N (Byte.to_N b)) 15)));
    [|discriminate].
  exact IH.
Qed.

(** Decoding the hexadecimal digits gives the bytes back, as a number. *)
Lemma hex_EncodeToString_value (bs : list Byte.byte) :
  forall n, hex_value_from n (hex_EncodeToString bs) = be_value_from n bs.
Proof.
  induction bs as [|b bs IH]; intros n;
    cbn [hex_EncodeToString hex_value_from be_value_from]; [reflexivity|].
  pose proof (encoded_byte b) as Hb. cbv zeta in Hb.
  destruct (hex_digit_value (hexchar (Z.shiftr (Z.of_N (Byte.to_N b)) 4)))
    as [hi|]; [|discriminate].
  destruct (hex_digit_value (hexchar (Z.land (Z.of_N (Byte.to_N b)) 15)))
    as [lo|]; [|discriminate].
  apply Z.eqb_eq in Hb. rewrite IH. f_equal. lia.
Qed.

Lemma hex_EncodeToString_drop (k : nat) :
  forall bs,
    drop (2 * k) (hex_EncodeToString bs) = hex_EncodeToString (skipn k bs).
Proof.
  induction k as [|k IH]; intros bs; [reflexivity|].
  replace (2 * S k)%nat with (S (S (2 * k))) by lia.
  destruct bs as [|b bs]; [reflexivity|].
  cbn [hex_EncodeToString drop skipn]. apply IH.
Qed.

(** [WithCorrelation] adds two fields to the fields of the logger:
    [span_id], the decimal string of the span identifier read as a 64-bit
    number, and [trace_id], the decimal string of the low 64 bits (the last
    8 bytes) of the trace identifier.  Nothing else changes. *)
Theorem WithCorrelation_decimal_fields
  (span : SpanContext) (log : Logger) (e : Env) (w : World) :
  List.length (SpanID span) = 8%nat ->
  List.length (TraceID span) = 16%nat ->
  exists s t : string,
    WithCorrelation span log e w =
      (Returns (log ++ [("span_id", s); ("trace_id", t)])%list, w) /\
    decimal_string_of (be_value (SpanID span)) s /\
    decimal_string_of (be_value (skipn 8 (TraceID span))) t.
Proof.
  intros Hs Ht.
  unfold WithCorrelation, bind. rewrite !convertTraceID_unfold.
  unfold ret, Logger_With, zap_String, len.
  rewrite !hex_EncodeToString_length, Hs, Ht.
  change (Z.of_nat (2 * 8) <? 16) with false.
  change (Z.of_nat (2 * 8) >? 16) with false.
  change (Z.of_nat (2 * 16) <? 16) with false.
  change (Z.of_nat (2 * 16) >? 16) with true.
  cbv iota zeta.
  change 16%nat with (2 * 8)%nat at 1. rewrite hex_EncodeToString_drop.
  assert (Hl1 : String.length (hex_EncodeToString (SpanID span)) = 16%nat)
    by (rewrite hex_EncodeToString_length, Hs; reflexivity).
  assert (Hl2 : String.length (hex_EncodeToString (skipn 8 (TraceID span)))
                = 16%nat)
    by (rewrite hex_EncodeToString_length, length_skipn, Ht; reflexivity).
  destruct (ParseUint_sixteen_hex _ Hl1 (hex_EncodeToString_all_hex _))
    as [Hp1 Hv1].
  destruct (ParseUint_sixteen_hex _ Hl2 (hex_EncodeToString_all_hex _))
    as [Hp2 Hv2].
  rewrite Hp1, Hp2. unfold hex_value in *.
  rewrite hex_EncodeToString_value in Hv1, Hv2 |- *.
  rewrite hex_EncodeToString_value.
  eexists. eexists. split; [reflexivity|].
  split; apply FormatUint_decimal; assumption.
Qed.

Lemma WithCorrelation_decimal_fields_witness :
  exists s t : string,
    WithCorrelation sample_span [("service", "demo-client")] quiet initial =
      (Returns ([("service", "demo-client")] ++
                [("span_id", s); ("trace_id", t)])%list, initial) /\
    decimal_string_of (be_value (SpanID sample_span)) s /\
    decimal_string_of (be_value (skipn 8 (TraceID sample_span))) t.
Proof.
  apply (WithCorrelation_decimal_fields
           sample_span [("service", "demo-client")] quiet initial).
  - reflexivity.
  - reflexivity.
Defined.

(** ** The runs of the process *)

(** When the exporter or the resource cannot be built, [main] is over at the
    fatal line of [handleErr]. *)
Lemma main_init_failed (fuel : nat) (e : Env) (w : World) :
  init_succeeds e = false ->
  main fuel e w = (Exits 1, record (init_failure_events e) w).
Proof.
  unfold init_succeeds, init_failure_events. intros Hinit.
  unfold main, initTraceProvider, initTracer, os_LookupEnv, otlptrace_New,
    resource_New, handleErr, log_Fatalf, bind, ask, ret, emit, os_Exit.
  unfold record, collector.
  destruct (environ e "OTEL_EXPORTER_OTLP_ENDPOINT") as [addr|];
    cbn [events spans requests];
    (destruct (exporter_err e) as [err|];
     [ cbn [events spans requests]; rewrite <- !app_assoc; reflexivity
     | cbn [events spans requests];
       destruct (resource_err e) as [err|]; [|discriminate];
       cbn [events spans requests]; rewrite <- !app_assoc; reflexivity ]).
Qed.

Section Runs.

Variable tracer : string.
Variable e : Env.

Lemma sendRequest_shutdowns (w : World) :
  shutdowns (events (snd (sendRequest tracer e w))) = shutdowns (events w).
Proof.
  rewrite sendRequest_run.
  destruct (url_err e (target e)) as [err|];
    [|destruct (transport_err e (requests w)) as [err|]];
    cbn [snd events]; rewrite shutdowns_app; cbn; lia.
Qed.

(** The loop does not shut the exporter down. *)
Lemma forever_shutdowns (fuel : nat) :
  forall w,
    shutdowns (events (snd (forever fuel (sendRequest tracer) e w)))
    = shutdowns (events w).
Proof.
  induction fuel as [|fuel IH]; intros w; [reflexivity|].
  cbn [forever]. unfold bind.
  pose proof (sendRequest_shutdowns w) as Hs.
  destruct (sendRequest tracer e w) as [[[]|v|c|] w']; cbn [snd] in *;
    try exact Hs.
  rewrite IH. exact Hs.
Qed.

(** The loop ends the process with status 1 only. *)
Lemma forever_exit_code (fuel : nat) :
  forall w c,
    fst (forever fuel (sendRequest tracer) e w) = Exits c -> c = 1.
Proof.
  induction fuel as [|fuel IH]; intros w c; [discriminate|].
  cbn [forever]. unfold bind.
  pose proof (sendRequest_run tracer e w) as Hrun.
  destruct (sendRequest tracer e w) as [[[]|v|c'|] w']; cbn [fst].
  - apply IH.
  - discriminate.
  - intros Hc. injection Hc as ->.
    destruct (url_err e (target e));
      [|destruct (transport_err e (requests w))];
      congruence.
  - discriminate.
Qed.


End Runs.

(** The loop function is the loop of [sendRequest] under the tracer named
    demo-client-tracer. *)
Lemma continuouslySendRequests_run (fuel : nat) (e : Env) (w : World) :
  continuouslySendRequests fuel e w =
  forever fuel (sendRequest "demo-client-tracer") e w.
Proof.
  reflexivity.
Qed.



(** A setup that fails ends the process with status 1 at the fatal line:
    no propagator and no provider is registered, no span is started, no
    request is made, and the exporter, if it was built, is not shut down. *)
Theorem setup_failure_exits_before_registration (e : Env) (fuel : nat) :
  init_succeeds e = false ->
  let r := main fuel e initial in
  fst r = Exits 1 /\
  events (snd r) = init_failure_events e /\
  ~ In EvSetTextMapPropagator (events (snd r)) /\
  ~ In EvSetTracerProvider (events (snd r)) /\
  started (events (snd r)) = [] /\
  round_trips (events (snd r)) = 0%nat /\
  shutdowns (events (snd r)) = 0%nat.
Proof.
  intros Hinit. cbv zeta. rewrite main_init_failed by exact Hinit.
  cbn [fst snd record initial events app].
  split; [reflexivity|]. split; [reflexivity|].
  unfold init_succeeds in Hinit. unfold init_failure_events.
  destruct (exporter_err e) as [err|];
    [|destruct (resource_err e) as [err|]; [|discriminate]];
    cbn [In started round_trips shutdowns];
    repeat split; try reflexivity;
    intros H; repeat (destruct H as [H|H]; [discriminate H|]); exact H.
Qed.

Lemma setup_failure_exits_before_registration_witness :
  let r := main 3 no_resource initial in
  fst r = Exits 1 /\
  events (snd r) = init_failure_events no_resource /\
  ~ In EvSetTextMapPropagator (events (snd r)) /\
  ~ In EvSetTracerProvider (events (snd r)) /\
  started (events (snd r)) = [] /\
  round_trips (events (snd r)) = 0%nat /\
  shutdowns (events (snd r)) = 0%nat.
Proof.
  apply (setup_failure_exits_before_registration no_resource 3).
  reflexivity.
Defined.

(** In every surroundings and however long it is observed, [main] does not
    return: the process is still running, or it ended by a panic (status 2)
    or by [log.Fatalf] (status 1).  It never ends with status 0. *)
Theorem main_exit_status (e : Env) (fuel : nat) :
  let s := exit_status (fst (main fuel e initial)) in
  s = None \/ s = Some 1 \/ s = Some 2.
Proof.
  cbv zeta. destruct (init_succeeds e) eqn:Hinit.
  - rewrite main_run by exact Hinit.
    rewrite continuouslySendRequests_run.
    pose proof (forever_never_returns "demo-client-tracer" e fuel
                  (record (init_events e) initial)) as Hret.
    pose proof (forever_exit_code "demo-client-tracer" e fuel
                  (record (init_events e) initial)) as Hcode.
    destruct (forever fuel (sendRequest "demo-client-tracer") e
                (record (init_events e) initial)) as [[[]|v|c|] w'];
      cbn [fst exit_status] in *.
    + now elim Hret.
    + right. right. reflexivity.
    + right. left. rewrite (Hcode c eq_refl). reflexivity.
    + left. reflexivity.
  - rewrite main_init_failed by exact Hinit. right. left. reflexivity.
Qed.

(** The exporter is shut down exactly when the process ends by a panic, and
    then once; a process that ends through [log.Fatalf], or still runs, has
    not shut it down. *)
Theorem main_shutdown_iff_panic (e : Env) (fuel : nat) :
  shutdowns (events (snd (main fuel e initial))) =
  match fst (main fuel e initial) with
  | Panics _ => 1%nat
  | _ => 0%nat
  end.
Proof.
  destruct (init_succeeds e) eqn:Hinit.
  - rewrite main_run by exact Hinit.
    rewrite !continuouslySendRequests_run.
    pose proof (forever_never_returns "demo-client-tracer" e fuel
                  (record (init_events e) initial)) as Hret.
    pose proof (forever_shutdowns "demo-client-tracer" e fuel
                  (record (init_events e) initial)) as Hs.
    destruct (forever fuel (sendRequest "demo-client-tracer") e
                (record (init_events e) initial)) as [[[]|v|c|] w'];
      cbn [fst snd] in *.
    + now elim Hret.
    + unfold record at 1. cbn [events]. rewrite shutdowns_app, Hs.
      unfold shutdown_events. destruct (shutdown_err e); reflexivity.
    + exact Hs.
    + exact Hs.
  - rewrite main_init_failed by exact Hinit.
    cbn [fst snd record initial events app].
    unfold init_succeeds in Hinit. unfold init_failure_events.
    destruct (exporter_err e);
      [|destruct (resource_err e); [|discriminate]]; reflexivity.
Qed.

(** An address that is no URL ends the process in the first iteration with
    status 1, whatever the surroundings otherwise: the span of the iteration
    is started and never ended, no request is sent and the exporter is not
    shut down. *)
Theorem rejected_address_exits (e : Env) (fuel : nat) (err : error) :
  init_succeeds e = true ->
  url_err e (target e) = Some err ->
  let r := main (S fuel) e initial in
  fst r = Exits 1 /\
  started (events (snd r)) = [(0%nat, "ExecuteRequest")] /\
  ended (events (snd r)) = [] /\
  round_trips (events (snd r)) = 0%nat /\
  shutdowns (events (snd r)) = 0%nat /\
  In (EvFatal ("failed to http request: " ++ err)) (events (snd r)).
Proof.
  intros Hinit Hurl. cbv zeta.
  rewrite (main_rejected e fuel err Hinit Hurl).
  cbn [fst snd events]. unfold init_events, rejected_events.
  repeat split. cbn. tauto.
Qed.

Lemma rejected_address_exits_witness :
  let r := main 1 bad_endpoint initial in
  fst r = Exits 1 /\
  started (events (snd r)) = [(0%nat, "ExecuteRequest")] /\
  ended (events (snd r)) = [] /\
  round_trips (events (snd r)) = 0%nat /\
  shutdowns (events (snd r)) = 0%nat /\
  In (EvFatal ("failed to http request: " ++ "missing protocol scheme"))
     (events (snd r)).
Proof.
  apply (rejected_address_exits bad_endpoint 0 "missing protocol scheme").
  - reflexivity.
  - reflexivity.
Defined.

(** An error of the exporter's shutdown is not fatal: on the way out of a
    panic the shutdown is given one second, its error goes to [otel.Handle],
    these are the last two events of the process, and the process still ends
    with the panic of the request. *)
Theorem shutdown_error_is_handled
  (e : Env) (k fuel : nat) (err serr : error) :
  init_succeeds e = true ->
  url_err e (target e) = None ->
  (forall i, (i < k)%nat -> transport_err e i = None) ->
  transport_err e k = Some err ->
  shutdown_err e = Some serr ->
  (k < fuel)%nat ->
  let r := main fuel e initial in
  fst r = Panics err /\
  exists before : list Event,
    events (snd r) = (before ++ [EvShutdown Second; EvHandle serr])%list /\
    shutdowns before = 0%nat.
Proof.
  intros Hinit Hurl Hok Herr Hserr Hfuel. cbv zeta.
  rewrite (main_refused e k fuel err) by assumption.
  cbn [fst snd events]. split; [reflexivity|].
  exists (init_events e ++ flat_map (iteration_events e) (seq 0 k) ++
          refused_events e k)%list.
  unfold shutdown_events. rewrite Hserr. split.
  - rewrite <- !app_assoc. reflexivity.
  - rewrite !shutdowns_app, shutdowns_iterations. reflexivity.
Qed.

Lemma shutdown_error_is_handled_witness :
  let r := main 5 (refused_then_timeout 1) initial in
  fst r = Panics "connection refused" /\
  exists before : list Event,
    events (snd r) =
      (before ++ [EvShutdown Second; EvHandle "context deadline exceeded"])%list /\
    shutdowns before = 0%nat.
Proof.
  apply (shutdown_error_is_handled (refused_then_timeout 1) 1 5
           "connection refused" "context deadline exceeded").
  - reflexivity.
  - reflexivity.
  - intros [|i] Hi; [reflexivity | lia].
  - reflexivity.
  - reflexivity.
  - lia.
Defined.

(** ** The iterations of the request loop *)




